(** * http2ldap: request translation and response aggregation

    A shallow embedding of the request handler of [http2ldap.js]
    (the [app.get('/*', ...)] callback and the event handlers it installs on
    the search result) together with the JavaScript built-ins it calls.
    Console output ([console.log], [console.error]) is left out. *)

From Stdlib Require Import ZArith NArith String Ascii DecimalString.
From Stdlib Require DecimalZ DecimalPos.
From stdpp Require Import gmap list.

Local Open Scope N_scope.

(** ** JavaScript strings

    A JavaScript string is a finite sequence of 16-bit code units. *)

Module JsString.

Definition code_unit := N.
Abbreviation jsstring := (list N).

(** The code units of an ASCII literal. *)
Definition str (s : string) : jsstring :=
  List.map N_of_ascii (list_ascii_of_string s).
Arguments str s%_string.

(** [s.substring(1)]: the string without its first code unit. *)
Definition substring1 (s : jsstring) : jsstring := drop 1 s.

(** [s.split(sep)] for a separator of one code unit.  The result always has
    at least one element: the empty string splits into one empty string. *)
Fixpoint split (sep : code_unit) (s : jsstring) : list jsstring :=
  match s with
  | [] => [[]]
  | c :: rest =>
      if c =? sep then [] :: split sep rest
      else match split sep rest with
           | [] => [[c]]
           | seg :: segs => (c :: seg) :: segs
           end
  end.

(** [a.join(sep)] on an array of strings. *)
Fixpoint join (sep : jsstring) (a : list jsstring) : jsstring :=
  match a with
  | [] => []
  | [x] => x
  | x :: rest => x ++ sep ++ join sep rest
  end.

(** [Number::toString] of an integral number (decimal, ["-"] for the sign). *)
Definition number_toString (z : Z) : jsstring :=
  str (NilZero.string_of_int (Z.to_int z)).

End JsString.
Import JsString.

(** ** [decodeURI]

    ECMA-262, [Decode (string, preserveEscapeSet)] with the reserved set of
    [decodeURI].  [None] stands for the [URIError] exception. *)

Module Uri.

Definition percent : code_unit := 37.

(** The reserved set [;/?:@&=+$,] together with [#]: escapes of these
    characters are left as they are. *)
Definition preserveEscapeSet : jsstring := str ";/?:@&=+$,#".

Definition hex_digit (c : code_unit) : option N :=
  if (48 <=? c) && (c <=? 57) then Some (c - 48)
  else if (65 <=? c) && (c <=? 70) then Some (c - 55)
  else if (97 <=? c) && (c <=? 102) then Some (c - 87)
  else None.

Definition ParseHexOctet (h l : code_unit) : option N :=
  match hex_digit h, hex_digit l with
  | Some a, Some b => Some (16 * a + b)
  | _, _ => None
  end.

(** Number of leading 1 bits of an octet. *)
Definition leading_ones (b : N) : nat :=
  if b <? 128 then 0%nat
  else if b <? 192 then 1%nat
  else if b <? 224 then 2%nat
  else if b <? 240 then 3%nat
  else if b <? 248 then 4%nat
  else 5%nat.

Definition is_continuation (b : N) : bool := (128 <=? b) && (b <=? 191).

(** The code point encoded by a well-formed UTF-8 sequence of [1 + length
    conts] octets: continuation octets in range, shortest form, no
    surrogate, at most U+10FFFF. *)
Definition utf8_code_point (lead : N) (conts : list N) : option N :=
  if forallb is_continuation conts then
    let payload := fold_left (fun acc b => 64 * acc + (b - 128)) conts in
    match conts with
    | [_] =>
        let v := payload (lead - 192) in
        if 128 <=? v then Some v else None
    | [_; _] =>
        let v := payload (lead - 224) in
        if (2048 <=? v) && negb ((55296 <=? v) && (v <=? 57343))
        then Some v else None
    | [_; _; _] =>
        let v := payload (lead - 240) in
        if (65536 <=? v) && (v <=? 1114111) then Some v else None
    | _ => None
    end
  else None.

Definition UTF16EncodeCodePoint (v : N) : jsstring :=
  if v <=? 65535 then [v]
  else [(v - 65536) / 1024 + 55296; (v - 65536) mod 1024 + 56320].

(** One continuation escape [%XX] at the head of [s], handed to [k] with the
    rest of the string. *)
Definition continuation {A} (s : jsstring)
    (k : N -> jsstring -> option A) : option A :=
  match s with
  | p :: h :: l :: rest =>
      if p =? percent then
        match ParseHexOctet h l with
        | Some b => k b rest
        | None => None
        end
      else None
  | _ => None
  end.

Definition emit (s : jsstring) (r : option jsstring) : option jsstring :=
  match r with
  | Some t => Some (s ++ t)
  | None => None
  end.

Fixpoint Decode (s : jsstring) : option jsstring :=
  match s with
  | [] => Some []
  | c :: rest =>
      if c =? percent then
        match rest with
        | h :: l :: r1 =>
            match ParseHexOctet h l with
            | None => None
            | Some b =>
                match leading_ones b with
                | 0%nat =>
                    if bool_decide (b ∈ preserveEscapeSet)
                    then emit [c; h; l] (Decode r1)
                    else emit [b] (Decode r1)
                | 2%nat =>
                    continuation r1 (fun b1 r2 =>
                      match utf8_code_point b [b1] with
                      | Some v => emit (UTF16EncodeCodePoint v) (Decode r2)
                      | None => None
                      end)
                | 3%nat =>
                    continuation r1 (fun b1 r2 =>
                    continuation r2 (fun b2 r3 =>
                      match utf8_code_point b [b1; b2] with
                      | Some v => emit (UTF16EncodeCodePoint v) (Decode r3)
                      | None => None
                      end))
                | 4%nat =>
                    continuation r1 (fun b1 r2 =>
                    continuation r2 (fun b2 r3 =>
                    continuation r3 (fun b3 r4 =>
                      match utf8_code_point b [b1; b2; b3] with
                      | Some v => emit (UTF16EncodeCodePoint v) (Decode r4)
                      | None => None
                      end)))
                | _ => None
                end
            end
        | _ => None
        end
      else emit [c] (Decode rest)
  end.

Definition decodeURI (s : jsstring) : option jsstring := Decode s.

End Uri.
Import Uri.

(** ** The HTTP request

    [req.path] is the path of the URL; [req.query] maps a parameter name to
    its parsed value: a string, or an array or object for the bracket and
    repeated forms.  A name that does not occur is [undefined] ([None]).
    The route ['/*'] is one of Express 4, whose query parser keeps every
    bracketed key, [toString] included, as an own property of the object it
    builds. *)

#[warnings="-register-all"]
Inductive qval :=
| QStr (s : jsstring)
| QArr (items : list qval)
| QObj (props : list (jsstring * qval)).

Record Request := { path : jsstring; query : gmap jsstring qval }.

(** [ToString] of a query value; [None] stands for the [TypeError]
    exception.  An array joins the conversions of its elements with [","].
    A plain object gives ["[object Object]"] through the [toString] it
    inherits; when it has an own property [toString], whose value is a
    string, an array or an object and so cannot be called, neither
    [toString] nor the inherited [valueOf] yields a primitive and the
    conversion throws. *)
Fixpoint ToString (v : qval) : option jsstring :=
  match v with
  | QStr s => Some s
  | QArr items => join (str ",") <$> mapM ToString items
  | QObj props =>
      if bool_decide (str "toString" ∈ props.*1) then None
      else Some (str "[object Object]")
  end.

Definition ToString_undef (v : option qval) : option jsstring :=
  match v with
  | None => Some (str "undefined")
  | Some q => ToString q
  end.

(** [v == lit] for a string literal [lit]; [None] stands for [TypeError].
    [undefined] equals no string, a string is compared by content, an array
    or object through its conversion to a primitive, which is the string
    [ToString] gives and fails when [ToString] does. *)
Definition loose_eq (v : option qval) (lit : jsstring) : option bool :=
  match v with
  | None => Some false
  | Some (QStr s) => Some (bool_decide (s = lit))
  | Some q => s ← ToString q; Some (bool_decide (s = lit))
  end.

(** ** The directory client *)

(** [entry.pojo] of a search entry:
    [{objectName, attributes: [{type, values}]}]. *)
Module SearchEntry.

Record attribute := { type : jsstring; values : list jsstring }.
Record pojo := { objectName : jsstring; attributes : list attribute }.

End SearchEntry.

Module Ldap.

(** The options object of [client.search]; an absent property is [None]. *)
Record options := {
  filter : option jsstring;
  scope : option jsstring;
  attributes : option (list jsstring)
}.

(** The object literal [{}]. *)
Definition no_options : options :=
  {| filter := None; scope := None; attributes := None |}.

(** One call [client.search(base, options, callback)]. *)
Record search_call := { base : jsstring; options_of : options }.

(** The error of an ['error'] event; [instanceof ldap.NoSuchObjectError]
    holds for the first constructor only. *)
Inductive error :=
| NoSuchObjectError (message : jsstring)
| OtherError (message : jsstring).

Definition message (e : error) : jsstring :=
  match e with
  | NoSuchObjectError m => m
  | OtherError m => m
  end.

Definition is_NoSuchObjectError (e : error) : bool :=
  match e with
  | NoSuchObjectError _ => true
  | OtherError _ => false
  end.

(** The events of the search result [ldapRes]. *)
Inductive event :=
| searchEntry (entry : SearchEntry.pojo)
| end_ (status : Z)
| error_ (err : error)
| searchReference (uris : list jsstring).

(** What the client hands to the search callback: [ldapErr], or [ldapRes]
    with the events it goes on to emit. *)
Inductive reply :=
| ldapErr
| ldapRes (events : list event).

End Ldap.

(** ** The entry sent back: [{dn, attributes: {name: [values]}}]

    The object [attributes] starts as [{}]: [own] are its own properties,
    [prototype] is the array that an assignment to ["__proto__"] has made
    its prototype, if there was one. *)

Record attribute_map := {
  own : gmap jsstring (list jsstring);
  prototype : option (list jsstring)
}.

Record resp := { dn : jsstring; attributes : attribute_map }.

(** ** The HTTP response object *)

(** The values given to [res.json]. *)
Inductive json :=
| Message (message : jsstring)
| Entries (entries : list resp).

Inductive body := NoBody | Json (v : json).

Record response := { code : Z; body_of : body }.

(** [statusCode] is the status the next send will use; [written] holds the
    responses put on the wire. *)
Record Res := { statusCode : Z; written : list response }.

Definition new_Res : Res := {| statusCode := 200; written := [] |}.

Definition headersSent (r : Res) : bool :=
  match written r with
  | [] => false
  | _ => true
  end.

Inductive exn := URIError | TypeError | ERR_HTTP_HEADERS_SENT.

(** ** State of one request, and the monad of the handlers

    A computation transforms the state and either returns or throws; what
    it changed before throwing stays changed. *)

Record World := {
  searches : list Ldap.search_call;
  res : Res;
  next_calls : nat;
  entries : list resp
}.

Definition new_World : World :=
  {| searches := []; res := new_Res; next_calls := 0; entries := [] |}.

Inductive result (A : Type) :=
| Ret (a : A)
| Throw (e : exn).
Arguments Ret {A} a.
Arguments Throw {A} e.

Definition M (A : Type) : Type := World -> result A * World.

Definition ret {A} (a : A) : M A := fun w => (Ret a, w).
Definition throw {A} (e : exn) : M A := fun w => (Throw e, w).
Definition bind {A B} (m : M A) (k : A -> M B) : M B :=
  fun w =>
    match m w with
    | (Ret a, w') => k a w'
    | (Throw e, w') => (Throw e, w')
    end.

Notation "x <- m ;; k" := (bind m (fun x => k))
  (at level 100, m at next level, right associativity).
Notation "m ;; k" := (bind m (fun _ => k))
  (at level 100, right associativity).

Definition set_res (f : Res -> Res) : M unit :=
  fun w => (Ret tt, {| searches := searches w; res := f (res w);
                       next_calls := next_calls w; entries := entries w |}).

(** [res.status(c)] *)
Definition res_status (c : Z) : M unit :=
  set_res (fun r => {| statusCode := c; written := written r |}).

Definition send (b : body) (r : Res) : Res :=
  {| statusCode := statusCode r;
     written := written r ++ [{| code := statusCode r; body_of := b |}] |}.

(** [res.json(v)]: sends [v] with the current status; setting the headers
    of a response that was already sent throws. *)
Definition res_json (v : json) : M unit :=
  fun w =>
    if headersSent (res w) then throw ERR_HTTP_HEADERS_SENT w
    else set_res (send (Json v)) w.

(** [res.end()]: finishes the response, with an empty body when nothing was
    sent; no effect on a finished response. *)
Definition res_end : M unit :=
  fun w =>
    if headersSent (res w) then ret tt w
    else set_res (send NoBody) w.

(** [next()] *)
Definition next : M unit :=
  fun w => (Ret tt, {| searches := searches w; res := res w;
                       next_calls := S (next_calls w); entries := entries w |}).

(** [client.search(base, options, callback)]: the call is recorded; what
    the client does with its arguments is its own affair. *)
Definition client_search (b : jsstring) (o : Ldap.options) : M unit :=
  fun w => (Ret tt, {| searches := searches w ++ [{| Ldap.base := b; Ldap.options_of := o |}];
                       res := res w; next_calls := next_calls w;
                       entries := entries w |}).

(** [entries.push(r)] *)
Definition entries_push (r : resp) : M unit :=
  fun w => (Ret tt, {| searches := searches w; res := res w;
                       next_calls := next_calls w;
                       entries := entries w ++ [r] |}).

Definition get_entries : M (list resp) := fun w => (Ret (entries w), w).

(** A conversion or comparison that throws [TypeError] when it fails. *)
Definition or_TypeError {A} (o : option A) : M A :=
  match o with
  | Some a => ret a
  | None => throw TypeError
  end.

(** ** The request handler: [app.get('/*', (req, res, next) => ...)] *)

Definition slash : code_unit := 47.

(** [req.path.substring(1).split("/").reverse().join(",")] *)
Definition searchBase (req : Request) : jsstring :=
  join (str ",") (rev (split slash (substring1 (path req)))).

(** [decodeURI(req.query["filter"])]: the argument is converted to a
    string and then decoded. *)
Definition filter (req : Request) : M jsstring :=
  s <- or_TypeError (ToString_undef (query req !! str "filter")) ;;
  match decodeURI s with
  | Some f => ret f
  | None => throw URIError
  end.

Definition scope (req : Request) : M jsstring :=
  let scopeNumber := query req !! str "scope" in
  let scope := str "base" in
  is_one <- or_TypeError (loose_eq scopeNumber (str "1")) ;;
  let scope := if is_one : bool then str "one" else scope in
  is_two <- or_TypeError (loose_eq scopeNumber (str "2")) ;;
  let scope := if is_two : bool then str "sub" else scope in
  ret scope.

(** The object [opts = {filter, scope, attributes: []}], after the filter
    and the scope were computed in this order. *)
Definition opts (req : Request) : M Ldap.options :=
  filter <- filter req ;;
  scope <- scope req ;;
  ret {| Ldap.filter := Some filter;
         Ldap.scope := Some scope;
         Ldap.attributes := Some [] |}.

(** The handler up to its call of [client.search], whose second argument is
    the literal [{}]. *)
Definition handler (req : Request) : M unit :=
  let searchBase := searchBase req in
  opts <- opts req ;;
  client_search searchBase Ldap.no_options.

(** ** The handlers of the search result *)

(** [o[name] = values] on the object [attributes].  The name
    ["__proto__"] is the accessor of [Object.prototype]: the assignment
    makes the array [values] the prototype of [o] and creates no property.
    Any other name creates the own property or overwrites it. *)
Definition set_property (o : attribute_map) (name : jsstring)
    (values : list jsstring) : attribute_map :=
  if bool_decide (name = str "__proto__")
  then {| own := own o; prototype := Some values |}
  else {| own := <[name := values]> (own o); prototype := prototype o |}.

(** The object literal [{}]. *)
Definition empty_object : attribute_map := {| own := ∅; prototype := None |}.

(** [entry.pojo.attributes.forEach(attr => resp.attributes[attr.type] =
    attr.values)], starting from [{dn: entry.pojo.objectName, attributes: {}}]. *)
Definition flatten (entry : SearchEntry.pojo) : resp :=
  {| dn := SearchEntry.objectName entry;
     attributes :=
       fold_left (fun acc attr =>
                    set_property acc (SearchEntry.type attr) (SearchEntry.values attr))
                 (SearchEntry.attributes entry) empty_object |}.

Definition on_searchEntry (entry : SearchEntry.pojo) : M unit :=
  entries_push (flatten entry).

Definition on_end (status : Z) : M unit :=
  if bool_decide (status ≠ 0%Z) then
    res_status 400 ;;
    res_json (Message (str "ldap status result was: " ++ number_toString status)) ;;
    res_end
  else
    entries <- get_entries ;;
    res_json (Entries entries) ;;
    next.

Definition on_error (searchBase : jsstring) (err : Ldap.error) : M unit :=
  if Ldap.is_NoSuchObjectError err then
    res_status 400 ;;
    res_json (Message (str "not found: " ++ searchBase)) ;;
    res_end
  else
    res_status 500 ;;
    res_json (Message (Ldap.message err)) ;;
    res_end.

Definition on_searchReference (uris : list jsstring) : M unit :=
  res_status 400 ;;
  res_json (Message (str "referrals not supported")) ;;
  res_end.

(** The handler that [ldapRes.on] registered for an event. *)
Definition on (searchBase : jsstring) (ev : Ldap.event) : M unit :=
  match ev with
  | Ldap.searchEntry entry => on_searchEntry entry
  | Ldap.end_ status => on_end status
  | Ldap.error_ err => on_error searchBase err
  | Ldap.searchReference uris => on_searchReference uris
  end.

(** The events in the order the client emits them.  An exception thrown by
    a handler leaves through the emitter: nothing here catches it. *)
Fixpoint emit_events (searchBase : jsstring) (evs : list Ldap.event) : M unit :=
  match evs with
  | [] => ret tt
  | ev :: rest => on searchBase ev ;; emit_events searchBase rest
  end.

(** The callback given to [client.search]. *)
Definition search_callback (searchBase : jsstring) (r : Ldap.reply) : M unit :=
  match r with
  | Ldap.ldapErr => res_status 500 ;; res_end
  | Ldap.ldapRes events => emit_events searchBase events
  end.

(** One request from start to finish: the handler, then the callback of the
    search it issued. *)
Definition serve (req : Request) (r : Ldap.reply) : M unit :=
  handler req ;; search_callback (searchBase req) r.

(** ** Streams and sample data *)

(** The state in which the search callback starts for a request whose
    search was issued, with [es] already pushed on [entries]. *)
Definition collecting (req : Request) (es : list resp) : World :=
  {| searches :=
       [{| Ldap.base := searchBase req; Ldap.options_of := Ldap.no_options |}];
     res := new_Res; next_calls := 0; entries := es |}.

(** The events whose handler sends a response. *)
Definition is_terminal (ev : Ldap.event) : bool :=
  match ev with
  | Ldap.searchEntry _ => false
  | _ => true
  end.

(** The response that the handler of a terminal event sends when nothing
    was sent before, given the search base and the entries pushed so far. *)
Definition outcome (sb : jsstring) (es : list resp) (ev : Ldap.event) : response :=
  match ev with
  | Ldap.end_ status =>
      if bool_decide (status = 0%Z)
      then {| code := 200; body_of := Json (Entries es) |}
      else {| code := 400;
              body_of := Json (Message (str "ldap status result was: " ++
                                        number_toString status)) |}
  | Ldap.error_ err =>
      if Ldap.is_NoSuchObjectError err
      then {| code := 400; body_of := Json (Message (str "not found: " ++ sb)) |}
      else {| code := 500; body_of := Json (Message (Ldap.message err)) |}
  | _ => {| code := 400; body_of := Json (Message (str "referrals not supported")) |}
  end.

(** The loop body of [flatten]. *)
Abbreviation set_attribute :=
  (fun (acc : attribute_map) (attr : SearchEntry.attribute) =>
     set_property acc (SearchEntry.type attr) (SearchEntry.values attr)).

(** [GET /dc=com/dc=example/ou=people?filter=(objectClass=person)&scope=2] *)
Definition request_people : Request :=
  {| path := str "/dc=com/dc=example/ou=people";
     query := {[ str "filter" := QStr (str "(objectClass=person)") ]} ∪
              {[ str "scope" := QStr (str "2") ]} |}.

(** [GET /dc=com?filter=%E0%A4%A]: the query parser leaves the escape it
    cannot decode as it is, and [req.query.filter] is ["%E0%A4%A"]. *)
Definition request_malformed : Request :=
  {| path := str "/dc=com"; query := {[ str "filter" := QStr (str "%E0%A4%A") ]} |}.

Definition people_segments : list jsstring :=
  [str "dc=com"; str "dc=example"; str "ou=people"].

Definition entry_mail : SearchEntry.pojo :=
  {| SearchEntry.objectName := str "uid=a,dc=x";
     SearchEntry.attributes :=
       [{| SearchEntry.type := str "mail"; SearchEntry.values := [str "a@x"; str "b@x"] |}] |}.

Definition timeout_error : Ldap.error := Ldap.OtherError (str "request timeout").

(** [","] for ["/"], any other code unit unchanged. *)
Definition slash_to_comma (c : code_unit) : code_unit :=
  if c =? slash then 44 else c.

(** Every ["%"] of [s] is followed by two hexadecimal digits. *)
Definition escaped (s : jsstring) : Prop :=
  forall pre post : jsstring,
    s = pre ++ percent :: post ->
    exists h l post', post = h :: l :: post' /\ is_Some (ParseHexOctet h l).

(** [GET /dc=com?filter=(description=100%25)]: the query parser decodes
    the escape, and [req.query.filter] is ["(description=100%)"]. *)
Definition request_percent : Request :=
  {| path := str "/dc=com";
     query := {[ str "filter" := QStr (str "(description=100%)") ]} |}.

(** [GET /dc=com/dc=example/ou=people], without parameters. *)
Definition request_people_all : Request :=
  {| path := str "/dc=com/dc=example/ou=people"; query := ∅ |}.

(** The four responses the handlers can send. *)
Definition expected_shape (r : response) : bool :=
  match code r, body_of r with
  | 200%Z, Json (Entries _) => true
  | 400%Z, Json (Message _) => true
  | 500%Z, Json (Message _) => true
  | 500%Z, NoBody => true
  | _, _ => false
  end.

(** Nothing was written and the status is still the default, or one
    response of an expected shape was written. *)
Definition shape_invariant (w : World) : Prop :=
  match written (res w) with
  | [] => statusCode (res w) = 200%Z
  | [x] => expected_shape x = true
  | _ => False
  end.

(** [GET /dc=com?scope[]=1]: [req.query.scope] is the array [["1"]]. *)
Definition request_scope_array : Request :=
  {| path := str "/dc=com"; query := {[ str "scope" := QArr [QStr (str "1")] ]} |}.

(** [GET /dc=com?scope[toString]=1]: [req.query.scope] is the object
    [{toString: "1"}]. *)
Definition request_scope_object : Request :=
  {| path := str "/dc=com";
     query := {[ str "scope" := QObj [(str "toString", QStr (str "1"))] ]} |}.

(** An entry with an attribute named ["__proto__"]. *)
Definition entry_proto : SearchEntry.pojo :=
  {| SearchEntry.objectName := str "uid=a,dc=x";
     SearchEntry.attributes :=
       [{| SearchEntry.type := str "__proto__"; SearchEntry.values := [str "x"] |};
        {| SearchEntry.type := str "cn"; SearchEntry.values := [str "a"] |}] |}.

(** * Properties *)

(** ** Strings *)

Section Strings.

Variable sep : code_unit.




End Strings.

Lemma loose_eq_string (s lit : jsstring) :
  loose_eq (Some (QStr s)) lit = Some (bool_decide (s = lit)).
Proof. reflexivity. Qed.

Lemma loose_eq_ToString (v : qval) (lit : jsstring) :
  loose_eq (Some v) lit = (fun s => bool_decide (s = lit)) <$> ToString v.
Proof. destruct v; cbn [loose_eq]; [done| |]; by destruct (ToString _). Qed.

Lemma ToString_strings (items : list jsstring) :
  ToString (QArr (QStr <$> items)) = Some (join (str ",") items).
Proof.
  cbn [ToString]. assert (H : mapM ToString (QStr <$> items) = Some items).
  { induction items as [|x items IH]; [done|]. cbn. cbn in IH. by rewrite IH. }
  by rewrite H.
Qed.

Lemma ToString_own_toString (props props' : list (jsstring * qval)) (v : qval) :
  ToString (QObj (props ++ (str "toString", v) :: props')) = None.
Proof.
  cbn [ToString]. rewrite bool_decide_eq_true_2; [done|].
  rewrite fmap_app. apply elem_of_app. right. apply list_elem_of_here.
Qed.

(** ** The synchronous part of the handler *)

(** Neither the filter nor the scope computation reads or changes the
    state. *)
Lemma filter_eq (req : Request) (w : World) :
  filter req w =
    (match ToString_undef (query req !! str "filter") with
     | None => Throw TypeError
     | Some s =>
         match decodeURI s with
         | Some f => Ret f
         | None => Throw URIError
         end
     end, w).
Proof.
  unfold filter, bind, or_TypeError.
  destruct (ToString_undef _) as [s|]; [|done]. cbn. by destruct (decodeURI s).
Qed.

Lemma scope_eq (req : Request) (w : World) :
  scope req w =
    (match loose_eq (query req !! str "scope") (str "1"),
           loose_eq (query req !! str "scope") (str "2") with
     | Some is_one, Some is_two =>
         Ret (if is_two then str "sub" else if is_one then str "one" else str "base")
     | _, _ => Throw TypeError
     end, w).
Proof.
  unfold scope, bind, or_TypeError.
  destruct (loose_eq _ (str "1")) as [[]|]; [| |done];
    by destruct (loose_eq _ (str "2")) as [[]|].
Qed.

(** The scope for a parameter whose conversion to a primitive gives [s]. *)
Lemma scope_converted (req : Request) (v : qval) (s : jsstring) (w : World) :
  query req !! str "scope" = Some v ->
  ToString v = Some s ->
  scope req w =
    (Ret (if bool_decide (s = str "1") then str "one"
          else if bool_decide (s = str "2") then str "sub"
          else str "base"), w).
Proof.
  intros Hv Hs. rewrite scope_eq, Hv, !loose_eq_ToString, Hs. cbn.
  destruct (decide (s = str "1")) as [->|H1]; [done|].
  by rewrite (bool_decide_eq_false_2 _ H1).
Qed.

Lemma scope_throws (req : Request) (v : qval) (w : World) :
  query req !! str "scope" = Some v ->
  ToString v = None ->
  scope req w = (Throw TypeError, w).
Proof.
  intros Hv Hs. by rewrite scope_eq, Hv, !loose_eq_ToString, Hs.
Qed.

Lemma scope_absent (req : Request) (w : World) :
  query req !! str "scope" = None -> scope req w = (Ret (str "base"), w).
Proof. intros Hv. by rewrite scope_eq, Hv. Qed.

Lemma opts_pure (req : Request) (w : World) :
  opts req w = (fst (opts req new_World), w).
Proof.
  unfold opts, bind. rewrite !filter_eq.
  destruct (ToString_undef _) as [s|]; [|done].
  destruct (decodeURI s) as [f|]; [|done].
  rewrite !scope_eq.
  destruct (loose_eq _ (str "1")) as [is_one|]; [|done].
  by destruct (loose_eq _ (str "2")) as [is_two|].
Qed.

(** [opts] holds the decoded filter, the scope name and an empty attribute
    list. *)
Lemma opts_computed (req : Request) (f sc : jsstring) (w : World) :
  fst (filter req new_World) = Ret f ->
  fst (scope req new_World) = Ret sc ->
  opts req w =
    (Ret {| Ldap.filter := Some f; Ldap.scope := Some sc;
            Ldap.attributes := Some [] |}, w).
Proof.
  intros Hf Hs. rewrite opts_pure. f_equal. unfold opts, bind.
  destruct (filter req new_World) as [rf wf] eqn:Hfw. cbn [fst] in Hf. subst rf.
  assert (wf = new_World) as -> by (rewrite filter_eq in Hfw; congruence).
  destruct (scope req new_World) as [rs ws] eqn:Hsw. cbn [fst] in Hs. by subst rs.
Qed.

(** When the handler does not throw it has made one call of
    [client.search], with the search base and [{}]. *)
Lemma handler_issues (req : Request) (w : World) :
  fst (handler req new_World) = Ret tt ->
  handler req w =
    (Ret tt,
     {| searches := searches w ++
          [{| Ldap.base := searchBase req; Ldap.options_of := Ldap.no_options |}];
        res := res w; next_calls := next_calls w; entries := entries w |}).
Proof.
  unfold handler, bind. rewrite (opts_pure req w), (opts_pure req new_World).
  by destruct (fst (opts req new_World)).
Qed.

(** When it throws it has changed nothing. *)
Lemma handler_throws (req : Request) (e : exn) (w : World) :
  fst (handler req new_World) = Throw e ->
  handler req w = (Throw e, w).
Proof.
  unfold handler, bind. rewrite (opts_pure req w), (opts_pure req new_World).
  destruct (fst (opts req new_World)); cbn; [done|]. by intros [= ->].
Qed.

Lemma handler_returns (req : Request) (f sc : jsstring) :
  fst (filter req new_World) = Ret f ->
  fst (scope req new_World) = Ret sc ->
  fst (handler req new_World) = Ret tt.
Proof.
  intros Hf Hs. unfold handler, bind.
  by rewrite (opts_computed req f sc new_World Hf Hs).
Qed.

Lemma handler_URIError (req : Request) (s : jsstring) :
  ToString_undef (query req !! str "filter") = Some s ->
  decodeURI s = None ->
  fst (handler req new_World) = Throw URIError.
Proof.
  intros Hs Hdec. unfold handler, opts, bind. by rewrite filter_eq, Hs, Hdec.
Qed.

Ltac case_event ev :=
  let st := fresh "status" in
  let err := fresh "err" in
  destruct ev as [?|st|err|?];
  [ | unfold on, on_end; destruct (bool_decide (st ≠ 0%Z)) | destruct err | ].

Lemma on_searches (sb : jsstring) (ev : Ldap.event) (w : World) :
  searches (snd (on sb ev w)) = searches w.
Proof.
  destruct w as [ss [sc [|r wr]] n es]; case_event ev; reflexivity.
Qed.

Lemma emit_events_searches (sb : jsstring) (evs : list Ldap.event) (w : World) :
  searches (snd (emit_events sb evs w)) = searches w.
Proof.
  revert w. induction evs as [|ev evs IH]; intros w; simpl; [done|].
  unfold bind. pose proof (on_searches sb ev w) as Hon.
  destruct (on sb ev w) as [[[]|e] w']; simpl in *; [|done].
  by rewrite IH.
Qed.

Lemma search_callback_searches (sb : jsstring) (r : Ldap.reply) (w : World) :
  searches (snd (search_callback sb r w)) = searches w.
Proof.
  destruct r as [|evs]; [|apply emit_events_searches].
  destruct w as [ss [sc [|r wr]] n es]; reflexivity.
Qed.

Example path_people : path request_people = slash :: join [slash] people_segments.
Proof. reflexivity. Qed.

Example searchBase_people :
  searchBase request_people = str "ou=people,dc=example,dc=com".
Proof. reflexivity. Qed.

Example searchBase_root (q : gmap jsstring qval) :
  searchBase {| path := str "/"; query := q |} = [].
Proof. reflexivity. Qed.

Example searchBase_trailing_slash (q : gmap jsstring qval) :
  searchBase {| path := str "/dc=com/"; query := q |} = str ",dc=com".
Proof. reflexivity. Qed.



Example handler_people :
  handler {| path := slash :: join [slash] people_segments; query := ∅ |} new_World =
    (Ret tt,
     {| searches := [{| Ldap.base := str "ou=people,dc=example,dc=com";
                        Ldap.options_of := Ldap.no_options |}];
        res := new_Res; next_calls := 0; entries := [] |}).
Proof. reflexivity. Qed.

Lemma serve_issued (req : Request) (r : Ldap.reply) (w : World) :
  fst (handler req new_World) = Ret tt ->
  serve req r w =
    search_callback (searchBase req) r
      {| searches := searches w ++
           [{| Ldap.base := searchBase req; Ldap.options_of := Ldap.no_options |}];
         res := res w; next_calls := next_calls w; entries := entries w |}.
Proof.
  intros Hh. unfold serve, bind. by rewrite (handler_issues req w Hh).
Qed.

Lemma serve_throws (req : Request) (e : exn) (r : Ldap.reply) (w : World) :
  fst (handler req new_World) = Throw e ->
  serve req r w = (Throw e, w).
Proof.
  intros Hh. unfold serve, bind. by rewrite (handler_throws req e w Hh).
Qed.

Lemma serve_searches (req : Request) (r : Ldap.reply) (w : World) :
  searches (snd (serve req r w)) = searches (snd (handler req w)).
Proof.
  unfold serve, bind. destruct (handler req w) as [[[]|e] w']; [|done].
  apply search_callback_searches.
Qed.

(** Whatever the request, a search call made by the handler carries the
    options [{}]. *)
Lemma handler_search_options (req : Request) :
  Forall (fun c => Ldap.options_of c = Ldap.no_options)
         (searches (snd (handler req new_World))).
Proof.
  destruct (fst (handler req new_World)) as [[]|e] eqn:Hh.
  - rewrite (handler_issues req new_World Hh). by repeat constructor.
  - rewrite (handler_throws req e new_World Hh). constructor.
Qed.

Example filter_escaped (p : jsstring) (w : World) :
  filter {| path := p; query := {[ str "filter" := QStr (str "(cn=a%20b)") ]} |} w =
    (Ret (str "(cn=a b)"), w).
Proof. reflexivity. Qed.

Example filter_absent (p : jsstring) (w : World) :
  filter {| path := p; query := ∅ |} w = (Ret (str "undefined"), w).
Proof. reflexivity. Qed.

Example filter_array (p : jsstring) (w : World) :
  filter {| path := p;
            query := {[ str "filter" := QArr [QStr (str "a"); QStr (str "b")] ]} |} w =
    (Ret (str "a,b"), w).
Proof. reflexivity. Qed.

Example filter_object (p : jsstring) (w : World) :
  filter {| path := p;
            query := {[ str "filter" := QObj [(str "a", QStr (str "b"))] ]} |} w =
    (Ret (str "[object Object]"), w).
Proof. reflexivity. Qed.

Example filter_own_toString (p : jsstring) (w : World) :
  filter {| path := p;
            query := {[ str "filter" := QObj [(str "toString", QStr (str "x"))] ]} |} w =
    (Throw TypeError, w).
Proof. reflexivity. Qed.

(** C1, at the request
    [GET /dc=com/dc=example/ou=people?filter=(objectClass=person)&scope=2]:
    the handler decodes the filter and puts it in [opts], but the options it
    hands to [client.search] are [{}]: the search is issued without a
    filter. *)
Theorem filter_not_handed_to_search :
  fst (opts request_people new_World) =
    Ret {| Ldap.filter := Some (str "(objectClass=person)");
           Ldap.scope := Some (str "sub");
           Ldap.attributes := Some [] |} /\
  searches (snd (handler request_people new_World)) =
    [{| Ldap.base := str "ou=people,dc=example,dc=com";
        Ldap.options_of :=
          {| Ldap.filter := None; Ldap.scope := None; Ldap.attributes := None |} |}].
Proof. split; reflexivity. Qed.

Example scope_zero (p : jsstring) (w : World) :
  scope {| path := p; query := {[ str "scope" := QStr (str "0") ]} |} w =
    (Ret (str "base"), w).
Proof. reflexivity. Qed.

Example scope_repeated (p : jsstring) (w : World) :
  scope {| path := p;
           query := {[ str "scope" := QArr [QStr (str "1"); QStr (str "1")] ]} |} w =
    (Ret (str "base"), w).
Proof. reflexivity. Qed.

Example scope_array_holding_object (p : jsstring) (w : World) :
  scope {| path := p;
           query := {[ str "scope" :=
                         QArr [QStr (str "1");
                               QObj [(str "toString", QStr (str "1"))]] ]} |} w =
    (Throw TypeError, w).
Proof. reflexivity. Qed.

(** C3 as stated fails.  The array [["1"]] (the query [scope[]=1]) is not
    the string ["1"], yet the scope is ["one"] and not ["base"]; and for the
    object [{toString: "1"}] (the query [scope[toString]=1]) the comparison
    throws [TypeError]: no scope is computed and no search is issued. *)
Lemma scope_of_array_and_object :
  scope request_scope_array new_World = (Ret (str "one"), new_World) /\
  scope request_scope_object new_World = (Throw TypeError, new_World) /\
  handler request_scope_object new_World = (Throw TypeError, new_World).
Proof. repeat split. Qed.

(** C3, amended: for a [scope] parameter that is a string, the scope is
    ["one"] for ["1"], ["sub"] for ["2"] and ["base"] for any other string,
    ["0"] included; it is ["base"] when the parameter is absent.  An array
    of strings is compared through its elements joined with [","]; an
    object gives ["base"] unless it has an own property [toString], which
    makes the comparison throw [TypeError].  Whenever a scope is computed
    it is one of the three names, and the only exception is [TypeError]. *)
Theorem scope_mapping (req : Request) (w : World) :
  (forall (s p : jsstring) (q : gmap jsstring qval),
     scope {| path := p; query := <[str "scope" := QStr s]> q |} w =
       (Ret (if bool_decide (s = str "1") then str "one"
             else if bool_decide (s = str "2") then str "sub"
             else str "base"), w)) /\
  (forall (p : jsstring) (q : gmap jsstring qval),
     scope {| path := p; query := delete (str "scope") q |} w =
       (Ret (str "base"), w)) /\
  (forall (items : list jsstring) (p : jsstring) (q : gmap jsstring qval),
     scope {| path := p; query := <[str "scope" := QArr (QStr <$> items)]> q |} w =
       (Ret (if bool_decide (join (str ",") items = str "1") then str "one"
             else if bool_decide (join (str ",") items = str "2") then str "sub"
             else str "base"), w)) /\
  (forall (props : list (jsstring * qval)) (p : jsstring) (q : gmap jsstring qval),
     scope {| path := p; query := <[str "scope" := QObj props]> q |} w =
       (if bool_decide (str "toString" ∈ props.*1) then Throw TypeError
        else Ret (str "base"), w)) /\
  match scope req w with
  | (Ret x, w') => x ∈ [str "base"; str "one"; str "sub"] /\ w' = w
  | (Throw e, w') => e = TypeError /\ w' = w
  end.
Proof.
  split; [|split; [|split; [|split]]].
  - intros s p q. apply (scope_converted _ (QStr s)); [|done].
    cbn [query]. apply lookup_insert_eq.
  - intros p q. apply scope_absent. cbn [query]. apply lookup_delete_eq.
  - intros items p q. apply (scope_converted _ (QArr (QStr <$> items))).
    + cbn [query]. apply lookup_insert_eq.
    + apply ToString_strings.
  - intros props p q. rewrite scope_eq. cbn [query]. rewrite lookup_insert_eq.
    cbn [loose_eq ToString]. by destruct (bool_decide _).
  - rewrite scope_eq.
    destruct (loose_eq _ (str "1")) as [[]|]; [| |done];
      destruct (loose_eq _ (str "2")) as [[]|]; (split; [|done]); try done;
      set_solver.
Qed.

(** C4 as stated fails: for the request [GET /dc=com?filter=%E0%A4%A] the
    handler issues no search at all. *)
Lemma no_search_for_malformed_filter :
  ~ exists c,
      searches (snd (serve request_malformed (Ldap.ldapRes [Ldap.end_ 0]) new_World)) = [c] /\
      Ldap.attributes (Ldap.options_of c) = None.
Proof. intros [c [Hc _]]. discriminate Hc. Qed.

(** C4, amended: for a request on which neither the decoding of the filter
    nor the comparison of the scope throws, exactly one search is issued,
    on the search base of the path, and its options name no attribute to
    select. *)
Theorem one_search_without_projection
    (req : Request) (f sc : jsstring) (r : Ldap.reply) :
  fst (filter req new_World) = Ret f ->
  fst (scope req new_World) = Ret sc ->
  exists c,
    searches (snd (serve req r new_World)) = [c] /\
    Ldap.base c = searchBase req /\
    Ldap.attributes (Ldap.options_of c) = None.
Proof.
  intros Hf Hs. pose proof (handler_returns req f sc Hf Hs) as Hh.
  rewrite serve_searches, (handler_issues req new_World Hh).
  eexists. split; [reflexivity|]. split; reflexivity.
Qed.

Lemma one_search_without_projection_witness :
  fst (filter request_people new_World) = Ret (str "(objectClass=person)") /\
  fst (scope request_people new_World) = Ret (str "sub") /\
  exists c,
    searches (snd (serve request_people (Ldap.ldapRes [Ldap.end_ 0]) new_World)) = [c] /\
    Ldap.base c = searchBase request_people /\
    Ldap.attributes (Ldap.options_of c) = None.
Proof.
  split; [reflexivity|]. split; [reflexivity|].
  apply (one_search_without_projection request_people
           (str "(objectClass=person)") (str "sub")); reflexivity.
Defined.

(** A request on which the handler throws issues no search and writes no
    response. *)
Lemma no_search_when_handler_throws
    (req : Request) (e : exn) (r : Ldap.reply) :
  fst (handler req new_World) = Throw e ->
  serve req r new_World = (Throw e, new_World).
Proof. apply serve_throws. Qed.

(** C10: when the filter parameter converts to a string that [decodeURI]
    rejects, the handler throws [URIError] and leaves the state as it was:
    no search is issued and nothing is written to the response, whatever
    the directory would have replied. *)
Theorem malformed_filter_throws
    (req : Request) (s : jsstring) (r : Ldap.reply) (w : World) :
  ToString_undef (query req !! str "filter") = Some s ->
  decodeURI s = None ->
  handler req w = (Throw URIError, w) /\
  serve req r w = (Throw URIError, w).
Proof.
  intros Hs Hdec. pose proof (handler_URIError req s Hs Hdec) as Hh.
  split; [by apply handler_throws|by apply serve_throws].
Qed.

Lemma malformed_filter_throws_witness :
  ToString_undef (query request_malformed !! str "filter") = Some (str "%E0%A4%A") /\
  decodeURI (str "%E0%A4%A") = None /\
  handler request_malformed new_World = (Throw URIError, new_World) /\
  serve request_malformed (Ldap.ldapRes [Ldap.end_ 0]) new_World =
    (Throw URIError, new_World).
Proof.
  split; [reflexivity|]. split; [reflexivity|].
  apply (malformed_filter_throws request_malformed (str "%E0%A4%A")); reflexivity.
Defined.

(** ** Flattening an entry *)

(** After the loop, a name other than ["__proto__"] holds the values of the
    last attribute of that name, or what it held before when there is
    none. *)
Lemma forEach_lookup (raw : list SearchEntry.attribute)
    (acc : attribute_map) (name : jsstring) :
  name <> str "__proto__" ->
  own (fold_left set_attribute raw acc) !! name =
    match last (base.filter (fun a => SearchEntry.type a = name) raw) with
    | Some a => Some (SearchEntry.values a)
    | None => own acc !! name
    end.
Proof.
  intros Hname. revert acc. induction raw as [|a raw IH]; intros acc; [done|].
  cbn [fold_left]. rewrite IH, filter_cons. unfold set_property.
  destruct (decide (SearchEntry.type a = name)) as [Ha|Ha].
  - rewrite last_cons.
    destruct (last (base.filter _ raw)); [done|].
    rewrite bool_decide_eq_false_2 by congruence. cbn [own].
    by rewrite Ha, lookup_insert_eq.
  - destruct (last (base.filter _ raw)); [done|].
    destruct (bool_decide _); cbn [own]; [done|].
    by rewrite lookup_insert_ne.
Qed.

(** The loop never creates a property named ["__proto__"]. *)
Lemma forEach_proto (raw : list SearchEntry.attribute) (acc : attribute_map) :
  own (fold_left set_attribute raw acc) !! str "__proto__" =
    own acc !! str "__proto__".
Proof.
  revert acc. induction raw as [|a raw IH]; intros acc; [done|].
  cbn [fold_left]. rewrite IH. unfold set_property.
  destruct (decide (SearchEntry.type a = str "__proto__")) as [Ha|Ha].
  - by rewrite (bool_decide_eq_true_2 _ Ha).
  - rewrite (bool_decide_eq_false_2 _ Ha). cbn [own]. by rewrite lookup_insert_ne.
Qed.

Example flatten_mail :
  own (attributes (flatten entry_mail)) !! str "mail" = Some [str "a@x"; str "b@x"].
Proof. reflexivity. Qed.

Example flatten_duplicate :
  own (attributes (flatten
    {| SearchEntry.objectName := str "uid=a";
       SearchEntry.attributes :=
         [{| SearchEntry.type := str "cn"; SearchEntry.values := [str "first"] |};
          {| SearchEntry.type := str "sn"; SearchEntry.values := [str "s"] |};
          {| SearchEntry.type := str "cn"; SearchEntry.values := [str "last"; str "l2"] |}] |})) =
  {[ str "cn" := [str "last"; str "l2"] ]} ∪ {[ str "sn" := [str "s"] ]}.
Proof. by vm_compute. Qed.

(** C5 as stated fails: the attribute named ["__proto__"] of this entry is
    no key of the flattened map, which holds the other attribute only. *)
Lemma flatten_loses_proto :
  str "__proto__" ∈ SearchEntry.type <$> SearchEntry.attributes entry_proto /\
  own (attributes (flatten entry_proto)) !! str "__proto__" = None /\
  own (attributes (flatten entry_proto)) = {[ str "cn" := [str "a"] ]}.
Proof.
  split; [apply list_elem_of_here|]. split; [reflexivity|by vm_compute].
Qed.

(** C5, amended: the flattened entry keeps the name of the entry; the keys
    of its attribute map are without repetition and are exactly the
    attribute names of the raw entry other than ["__proto__"]; each key
    holds the value sequence, as it is, of the last raw attribute of that
    name. *)
Theorem flatten_attributes (entry : SearchEntry.pojo) :
  let raw := SearchEntry.attributes entry in
  let m := own (attributes (flatten entry)) in
  dn (flatten entry) = SearchEntry.objectName entry /\
  NoDup (map_to_list m).*1 /\
  (forall name : jsstring,
     name ∈ (map_to_list m).*1 <->
     name ∈ SearchEntry.type <$> raw /\ name <> str "__proto__") /\
  (forall name : jsstring,
     m !! name =
       if bool_decide (name = str "__proto__") then None
       else SearchEntry.values <$>
              last (base.filter (fun a => SearchEntry.type a = name) raw)).
Proof.
  intros raw m.
  assert (Hlook : forall name : jsstring,
    m !! name =
      if bool_decide (name = str "__proto__") then None
      else SearchEntry.values <$>
             last (base.filter (fun a => SearchEntry.type a = name) raw)).
  { intros name. unfold m, flatten. cbn [attributes]. fold raw.
    destruct (decide (name = str "__proto__")) as [->|Hname].
    - by rewrite forEach_proto.
    - rewrite (bool_decide_eq_false_2 _ Hname), forEach_lookup by done.
      by destruct (last _). }
  split; [reflexivity|]. split; [apply NoDup_fst_map_to_list|]. split; [|exact Hlook].
  intros name. rewrite list_elem_of_fmap. split.
  - intros [[k v] [-> Hkv]]. apply elem_of_map_to_list in Hkv.
    cbn [fst] in *. rewrite Hlook in Hkv.
    destruct (decide (k = str "__proto__")) as [Hk|Hk].
    { by rewrite (bool_decide_eq_true_2 _ Hk) in Hkv. }
    rewrite (bool_decide_eq_false_2 _ Hk) in Hkv. split; [|done].
    destruct (last _) as [a|] eqn:Hlast; [|done].
    assert (Ha : a ∈ base.filter (fun a => SearchEntry.type a = k) raw).
    { apply last_Some in Hlast as [l' ->]. set_solver. }
    apply list_elem_of_filter in Ha as [Hty Hin].
    apply list_elem_of_fmap. eauto.
  - intros [Hin Hname]. apply list_elem_of_fmap in Hin as [a [-> Ha]].
    assert (Hsome : is_Some (last (base.filter
              (fun b => SearchEntry.type b = SearchEntry.type a) raw))).
    { apply last_is_Some. intros Hnil.
      by apply (filter_nil_not_elem_of _ _ a Hnil). }
    destruct Hsome as [b Hb].
    exists (SearchEntry.type a, SearchEntry.values b). split; [done|].
    apply elem_of_map_to_list.
    by rewrite Hlook, (bool_decide_eq_false_2 _ Hname), Hb.
Qed.

(** ** The result stream *)

Lemma bind_ret_tt (m : M unit) (w : World) : (m ;; ret tt) w = m w.
Proof. unfold bind, ret. by destruct (m w) as [[[]|e] w']. Qed.

Lemma emit_events_app (sb : jsstring) (pre post : list Ldap.event) (w : World) :
  emit_events sb (pre ++ post) w = (emit_events sb pre ;; emit_events sb post) w.
Proof.
  revert w. induction pre as [|ev pre IH]; intros w; [done|].
  cbn [app emit_events]. unfold bind in *.
  destruct (on sb ev w) as [[[]|e] w']; [|done]. apply IH.
Qed.

(** Entry events are flattened and appended in the order of arrival. *)
Lemma emit_entries (sb : jsstring) (raw : list SearchEntry.pojo) (w : World) :
  emit_events sb (Ldap.searchEntry <$> raw) w =
    (Ret tt,
     {| searches := searches w; res := res w; next_calls := next_calls w;
        entries := entries w ++ (flatten <$> raw) |}).
Proof.
  revert w. induction raw as [|e raw IH]; intros w.
  - destruct w. cbn. by rewrite app_nil_r.
  - cbn [fmap list_fmap emit_events]. unfold bind.
    cbn [on on_searchEntry entries_push]. rewrite IH.
    cbn [searches res next_calls entries]. by rewrite <- app_assoc.
Qed.

(** A request whose search was issued and whose stream is some entries
    followed by [post]. *)
Lemma serve_stream (req : Request)
    (raw : list SearchEntry.pojo) (post : list Ldap.event) :
  fst (handler req new_World) = Ret tt ->
  serve req (Ldap.ldapRes ((Ldap.searchEntry <$> raw) ++ post)) new_World =
    emit_events (searchBase req) post (collecting req (flatten <$> raw)).
Proof.
  intros Hf. rewrite (serve_issued req _ _ Hf). cbn [search_callback].
  rewrite emit_events_app. unfold bind. by rewrite emit_entries.
Qed.

Lemma emit_one (sb : jsstring) (ev : Ldap.event) (w : World) :
  emit_events sb [ev] w = on sb ev w.
Proof. cbn [emit_events]. apply bind_ret_tt. Qed.

(** Once a response was written, no handler changes what was written. *)
Lemma on_sent (sb : jsstring) (ev : Ldap.event) (w : World) :
  written (res w) <> [] ->
  written (res (snd (on sb ev w))) = written (res w).
Proof.
  destruct w as [ss [sc [|r wr]] n es]; [done|]. intros _.
  case_event ev; reflexivity.
Qed.

Lemma emit_events_sent (sb : jsstring) (evs : list Ldap.event) (w : World) :
  written (res w) <> [] ->
  written (res (snd (emit_events sb evs w))) = written (res w).
Proof.
  revert w. induction evs as [|ev evs IH]; intros w Hw; [done|].
  cbn [emit_events]. unfold bind.
  pose proof (on_sent sb ev w Hw) as Hon.
  destruct (on sb ev w) as [[[]|e] w']; cbn [snd] in *; [|done].
  rewrite IH; [done|]. by rewrite Hon.
Qed.

(** A terminal handler that runs after the response was sent throws from
    [res.json]. *)
Lemma on_terminal_sent (sb : jsstring) (ev : Ldap.event) (w : World) :
  written (res w) <> [] -> is_terminal ev = true ->
  fst (on sb ev w) = Throw ERR_HTTP_HEADERS_SENT.
Proof.
  destruct w as [ss [sc [|r wr]] n es]; [done|]. intros _ Hev.
  case_event ev; try reflexivity. discriminate Hev.
Qed.

(** An entry handler pushes its entry whether or not a response was sent. *)
Lemma on_searchEntry_pushes (sb : jsstring) (e : SearchEntry.pojo) (w : World) :
  on sb (Ldap.searchEntry e) w =
    (Ret tt,
     {| searches := searches w; res := res w; next_calls := next_calls w;
        entries := entries w ++ [flatten e] |}).
Proof. reflexivity. Qed.

Lemma on_terminal_collecting (req : Request) (es : list resp) (ev : Ldap.event) :
  is_terminal ev = true ->
  fst (on (searchBase req) ev (collecting req es)) = Ret tt /\
  written (res (snd (on (searchBase req) ev (collecting req es)))) =
    [outcome (searchBase req) es ev].
Proof.
  intros Hev. destruct ev as [e|status|err|uris]; [discriminate Hev| | |].
  - unfold on, on_end, outcome.
    destruct (decide (status = 0%Z)) as [->|Hne]; [by split|].
    by rewrite (bool_decide_eq_true_2 _ Hne), (bool_decide_eq_false_2 _ Hne).
  - by destruct err.
  - by split.
Qed.

Example scenario_A :
  written (res (snd (serve request_people
    (Ldap.ldapRes [Ldap.searchEntry entry_mail; Ldap.searchEntry entry_mail; Ldap.end_ 0])
    new_World))) =
  [{| code := 200; body_of := Json (Entries [flatten entry_mail; flatten entry_mail]) |}].
Proof. reflexivity. Qed.

Example scenario_C :
  written (res (snd (serve request_people (Ldap.ldapRes [Ldap.end_ 53]) new_World))) =
  [{| code := 400; body_of := Json (Message (str "ldap status result was: 53")) |}].
Proof. reflexivity. Qed.

(** C6: when the entries [raw] are followed by the end event, the response
    is 200 with the flattened entries in the order of arrival if the status
    is 0, and 400 with the message ["ldap status result was: " + status]
    otherwise. *)
Theorem end_event_response
    (req : Request) (raw : list SearchEntry.pojo) (status : Z) :
  fst (handler req new_World) = Ret tt ->
  written (res (snd (serve req
    (Ldap.ldapRes ((Ldap.searchEntry <$> raw) ++ [Ldap.end_ status])) new_World))) =
  [if bool_decide (status = 0%Z)
   then {| code := 200; body_of := Json (Entries (flatten <$> raw)) |}
   else {| code := 400;
           body_of := Json (Message (str "ldap status result was: " ++
                                     number_toString status)) |}].
Proof.
  intros Hf. rewrite (serve_stream req raw _ Hf), emit_one.
  by destruct (on_terminal_collecting req (flatten <$> raw) (Ldap.end_ status)).
Qed.

Lemma end_event_response_witness :
  fst (handler request_people new_World) = Ret tt /\
  written (res (snd (serve request_people
    (Ldap.ldapRes ((Ldap.searchEntry <$> [entry_mail]) ++ [Ldap.end_ 0])) new_World))) =
  [if bool_decide (0%Z = 0%Z)
   then {| code := 200; body_of := Json (Entries (flatten <$> [entry_mail])) |}
   else {| code := 400;
           body_of := Json (Message (str "ldap status result was: " ++
                                     number_toString 0)) |}].
Proof.
  split; [reflexivity|].
  apply (end_event_response request_people). reflexivity.
Defined.

(** C7: when the entries [raw] are followed by an error event, the response
    is 400 with the message ["not found: " + searchBase] if the error is a
    [NoSuchObjectError], and 500 with the message of the error otherwise. *)
Theorem error_event_response
    (req : Request) (raw : list SearchEntry.pojo) (err : Ldap.error) :
  fst (handler req new_World) = Ret tt ->
  written (res (snd (serve req
    (Ldap.ldapRes ((Ldap.searchEntry <$> raw) ++ [Ldap.error_ err])) new_World))) =
  [if Ldap.is_NoSuchObjectError err
   then {| code := 400;
           body_of := Json (Message (str "not found: " ++ searchBase req)) |}
   else {| code := 500; body_of := Json (Message (Ldap.message err)) |}].
Proof.
  intros Hf. rewrite (serve_stream req raw _ Hf), emit_one.
  by destruct (on_terminal_collecting req (flatten <$> raw) (Ldap.error_ err)).
Qed.

Lemma error_event_response_witness :
  fst (handler request_people new_World) = Ret tt /\
  written (res (snd (serve request_people
    (Ldap.ldapRes ((Ldap.searchEntry <$> []) ++
                   [Ldap.error_ (Ldap.NoSuchObjectError (str "No Such Object"))]))
    new_World))) =
  [{| code := 400;
      body_of := Json (Message (str "not found: ou=people,dc=example,dc=com")) |}].
Proof.
  split; [reflexivity|].
  apply (error_event_response request_people []
           (Ldap.NoSuchObjectError (str "No Such Object"))).
  reflexivity.
Defined.

(** C8: when the entries [raw] are followed by a referral event, the
    response is 400 with the message ["referrals not supported"], whatever
    the referral and the entries received; the request has still issued its
    one search only. *)
Theorem referral_event_response
    (req : Request) (raw : list SearchEntry.pojo) (uris : list jsstring) :
  fst (handler req new_World) = Ret tt ->
  let w := snd (serve req
    (Ldap.ldapRes ((Ldap.searchEntry <$> raw) ++ [Ldap.searchReference uris]))
    new_World) in
  written (res w) =
    [{| code := 400; body_of := Json (Message (str "referrals not supported")) |}] /\
  length (searches w) = 1%nat.
Proof.
  intros Hf w. split.
  - unfold w. rewrite (serve_stream req raw _ Hf), emit_one.
    by destruct (on_terminal_collecting req (flatten <$> raw)
                   (Ldap.searchReference uris)).
  - unfold w. by rewrite serve_searches, (handler_issues req _ Hf).
Qed.

Lemma referral_event_response_witness :
  fst (handler request_people new_World) = Ret tt /\
  let w := snd (serve request_people
    (Ldap.ldapRes ((Ldap.searchEntry <$> [entry_mail]) ++
                   [Ldap.searchReference [str "ldap://other/dc=example,dc=com"]]))
    new_World) in
  written (res w) =
    [{| code := 400; body_of := Json (Message (str "referrals not supported")) |}] /\
  length (searches w) = 1%nat.
Proof.
  split; [reflexivity|].
  apply (referral_event_response request_people). reflexivity.
Defined.

(** C9 as stated fails: an end event that follows an error event is not
    ignored.  Its handler runs, calls [res.json] on the response that was
    already sent and throws. *)
Lemma later_end_event_not_ignored :
  serve request_people (Ldap.ldapRes [Ldap.error_ timeout_error; Ldap.end_ 0]) new_World <>
    serve request_people (Ldap.ldapRes [Ldap.error_ timeout_error]) new_World /\
  fst (serve request_people
         (Ldap.ldapRes [Ldap.error_ timeout_error; Ldap.end_ 0]) new_World) =
    Throw ERR_HTTP_HEADERS_SENT.
Proof. split; [intros Heq; discriminate (f_equal fst Heq)|reflexivity]. Qed.

(** C9, amended: for a request whose search was issued and whose stream
    delivers a terminal event [t] after the entries [raw], exactly one
    response is written, the one of [t], and whatever events follow [t]
    neither alter it nor add another. *)
Theorem first_terminal_event_wins
    (req : Request) (raw : list SearchEntry.pojo)
    (t : Ldap.event) (post : list Ldap.event) :
  fst (handler req new_World) = Ret tt ->
  is_terminal t = true ->
  written (res (snd (serve req
    (Ldap.ldapRes ((Ldap.searchEntry <$> raw) ++ t :: post)) new_World))) =
    [outcome (searchBase req) (flatten <$> raw) t] /\
  written (res (snd (serve req
    (Ldap.ldapRes ((Ldap.searchEntry <$> raw) ++ [t])) new_World))) =
    [outcome (searchBase req) (flatten <$> raw) t].
Proof.
  intros Hf Ht.
  destruct (on_terminal_collecting req (flatten <$> raw) t Ht) as [Hret Hw].
  split.
  - rewrite (serve_stream req raw _ Hf). cbn [emit_events]. unfold bind.
    destruct (on (searchBase req) t (collecting req (flatten <$> raw)))
      as [[[]|e] w']; cbn [fst snd] in *; [|discriminate Hret].
    rewrite emit_events_sent; [done|]. by rewrite Hw.
  - by rewrite (serve_stream req raw _ Hf), emit_one.
Qed.

Lemma first_terminal_event_wins_witness :
  fst (handler request_people new_World) = Ret tt /\
  is_terminal (Ldap.searchReference []) = true /\
  written (res (snd (serve request_people
    (Ldap.ldapRes ((Ldap.searchEntry <$> [entry_mail]) ++
                   Ldap.searchReference [] :: [Ldap.searchEntry entry_mail; Ldap.end_ 0]))
    new_World))) =
    [outcome (searchBase request_people) (flatten <$> [entry_mail])
       (Ldap.searchReference [])] /\
  written (res (snd (serve request_people
    (Ldap.ldapRes ((Ldap.searchEntry <$> [entry_mail]) ++ [Ldap.searchReference []]))
    new_World))) =
    [outcome (searchBase request_people) (flatten <$> [entry_mail])
       (Ldap.searchReference [])].
Proof.
  split; [reflexivity|]. split; [reflexivity|].
  apply (first_terminal_event_wins request_people); reflexivity.
Defined.

(** * Further properties *)

(** ** The search base keeps every character of the path *)

Lemma split_nonempty (sep : code_unit) (s : jsstring) : split sep s <> [].
Proof.
  induction s as [|c s IH]; simpl; [done|].
  destruct (c =? sep); [done|]. by destruct (split sep s).
Qed.

Lemma join_cons (sep x : jsstring) (l : list jsstring) :
  l <> [] -> join sep (x :: l) = x ++ sep ++ join sep l.
Proof. by destruct l. Qed.

Lemma join_snoc (sep x : jsstring) (l : list jsstring) :
  l <> [] -> join sep (l ++ [x]) = join sep l ++ sep ++ x.
Proof.
  induction l as [|y l IH]; [done|]. intros _.
  destruct l as [|z l]; [done|].
  change ((y :: z :: l) ++ [x]) with (y :: ((z :: l) ++ [x])).
  rewrite join_cons by done. rewrite IH by done.
  rewrite (join_cons sep y (z :: l)) by done.
  by rewrite <- !app_assoc.
Qed.

(** Joining the pieces of a split with another separator replaces the
    separator, character by character. *)
Lemma join_split (sep c' : code_unit) (s : jsstring) :
  join [c'] (split sep s) = (fun c => if c =? sep then c' else c) <$> s.
Proof.
  induction s as [|c s IH]; [done|]. cbn [split fmap list_fmap].
  fold (fmap (M := list) (fun c => if c =? sep then c' else c) s).
  rewrite <- IH. pose proof (split_nonempty sep s) as Hne.
  destruct (c =? sep).
  - by rewrite join_cons.
  - destruct (split sep s) as [|seg segs]; [done|]. by destruct segs.
Qed.

Lemma join_rev (sep : jsstring) (l : list jsstring) :
  join sep (rev l) ≡ₚ join sep l.
Proof.
  induction l as [|x l IH]; [done|]. cbn [rev].
  destruct l as [|y l]; [done|].
  rewrite join_snoc.
  - rewrite IH, (join_cons sep x (y :: l)) by done.
    rewrite (comm (++) _ (sep ++ x)), <- app_assoc.
    by rewrite (comm (++) sep), <- app_assoc, (comm (++) _ sep).
  - cbn [rev]. by destruct (rev l).
Qed.

Lemma searchBase_perm (req : Request) :
  searchBase req ≡ₚ slash_to_comma <$> drop 1 (path req).
Proof.
  unfold searchBase, substring1. rewrite join_rev.
  apply reflexive_eq, (join_split slash 44).
Qed.

(** ** [decodeURI] on plain and on badly escaped strings *)

Lemma emit_Some (o : jsstring) (r : option jsstring) (t : jsstring) :
  emit o r = Some t -> exists t', r = Some t' /\ t = o ++ t'.
Proof. destruct r as [t'|]; [|done]. intros [= <-]. eauto. Qed.

Lemma Decode_app_plain (a b : jsstring) :
  percent ∉ a -> Decode (a ++ b) = emit a (Decode b).
Proof.
  induction a as [|c a IH]; intros Ha.
  - cbn [app]. by destruct (Decode b).
  - apply not_elem_of_cons in Ha as [Hc Ha].
    cbn [app Decode]. destruct (N.eqb_spec c percent) as [->|_]; [done|].
    rewrite (IH Ha). by destruct (Decode b).
Qed.

Lemma Decode_plain (s : jsstring) : percent ∉ s -> Decode s = Some s.
Proof.
  intros Hs. rewrite <- (app_nil_r s) at 1.
  rewrite (Decode_app_plain s [] Hs). cbn. by rewrite app_nil_r.
Qed.

Lemma ParseHexOctet_percent_l (l : code_unit) : ParseHexOctet percent l = None.
Proof. reflexivity. Qed.

Lemma ParseHexOctet_percent_r (h : code_unit) : ParseHexOctet h percent = None.
Proof. unfold ParseHexOctet. by destruct (hex_digit h). Qed.

Lemma escaped_nil : escaped [].
Proof. intros [|x pre] post Heq; discriminate Heq. Qed.

Lemma escaped_plain (c : code_unit) (s : jsstring) :
  c <> percent -> escaped s -> escaped (c :: s).
Proof.
  intros Hc Hs [|x pre] post Heq; cbn [app] in Heq.
  - by injection Heq as -> _.
  - injection Heq as _ Heq. by apply (Hs pre post).
Qed.

Lemma escaped_group (h l b : code_unit) (s : jsstring) :
  ParseHexOctet h l = Some b -> escaped s -> escaped (percent :: h :: l :: s).
Proof.
  intros Hb Hs pre post Heq.
  destruct pre as [|x [|y [|z pre]]]; cbn [app] in Heq.
  - injection Heq as <-. exists h, l, s. rewrite Hb. eauto.
  - injection Heq as _ -> _. by rewrite ParseHexOctet_percent_l in Hb.
  - injection Heq as _ _ -> _. by rewrite ParseHexOctet_percent_r in Hb.
  - injection Heq as _ _ _ Heq. by apply (Hs pre post).
Qed.

(** What [continuation] found when it did not fail. *)
Lemma continuation_Some {A} (s : jsstring) (k : N -> jsstring -> option A) (a : A) :
  continuation s k = Some a ->
  exists h l b rest,
    s = percent :: h :: l :: rest /\ ParseHexOctet h l = Some b /\ k b rest = Some a.
Proof.
  destruct s as [|p [|h [|l rest]]]; try done. cbn.
  destruct (N.eqb_spec p percent) as [->|_]; [|done].
  destruct (ParseHexOctet h l) as [b|] eqn:Hb; [|done].
  intros Hk. by exists h, l, b, rest.
Qed.

Lemma Decode_escaped_length (n : nat) (s t : jsstring) :
  (length s <= n)%nat -> Decode s = Some t -> escaped s.
Proof.
  revert s t. induction n as [|n IH]; intros s t Hlen Hdec.
  { destruct s; [apply escaped_nil|cbn in Hlen; lia]. }
  destruct s as [|c rest]; [apply escaped_nil|]. cbn [Decode] in Hdec.
  cbn [length] in Hlen.
  destruct (N.eqb_spec c percent) as [->|Hc].
  2:{ apply emit_Some in Hdec as (t' & Hrest & _).
      apply escaped_plain; [done|]. apply (IH rest t'); [lia|done]. }
  destruct rest as [|h [|l r1]]; try done. cbn [length] in Hlen.
  destruct (ParseHexOctet h l) as [b|] eqn:Hb; [|done].
  apply (escaped_group h l b); [done|].
  destruct (leading_ones b) as [|[|[|[|[|k]]]]]; try done.
  - destruct (bool_decide _); apply emit_Some in Hdec as (t' & Hr & _);
      apply (IH r1 t'); (lia || done).
  - apply continuation_Some in Hdec as (h1 & l1 & b1 & r2 & -> & Hb1 & Hk).
    destruct (utf8_code_point _ _); [|done].
    apply emit_Some in Hk as (t' & Hr & _).
    apply (escaped_group h1 l1 b1); [done|].
    apply (IH r2 t'); [cbn [length] in Hlen; lia|done].
  - apply continuation_Some in Hdec as (h1 & l1 & b1 & r2 & -> & Hb1 & Hk).
    apply continuation_Some in Hk as (h2 & l2 & b2 & r3 & -> & Hb2 & Hk).
    destruct (utf8_code_point _ _); [|done].
    apply emit_Some in Hk as (t' & Hr & _).
    apply (escaped_group h1 l1 b1); [done|].
    apply (escaped_group h2 l2 b2); [done|].
    apply (IH r3 t'); [cbn [length] in Hlen; lia|done].
  - apply continuation_Some in Hdec as (h1 & l1 & b1 & r2 & -> & Hb1 & Hk).
    apply continuation_Some in Hk as (h2 & l2 & b2 & r3 & -> & Hb2 & Hk).
    apply continuation_Some in Hk as (h3 & l3 & b3 & r4 & -> & Hb3 & Hk).
    destruct (utf8_code_point _ _); [|done].
    apply emit_Some in Hk as (t' & Hr & _).
    apply (escaped_group h1 l1 b1); [done|].
    apply (escaped_group h2 l2 b2); [done|].
    apply (escaped_group h3 l3 b3); [done|].
    apply (IH r4 t'); [cbn [length] in Hlen; lia|done].
Qed.

Lemma Decode_escaped (s t : jsstring) : Decode s = Some t -> escaped s.
Proof. apply (Decode_escaped_length (length s)). lia. Qed.

(** X1: The search base is the path without its first character, the
    segments rearranged and every ["/"] turned into [","]: no character is
    lost or added, and no ["/"] is left. *)
Theorem searchBase_keeps_characters (req : Request) :
  searchBase req ≡ₚ (slash_to_comma <$> drop 1 (path req)) /\
  (slash ∉ searchBase req) /\
  length (searchBase req) = (length (path req) - 1)%nat.
Proof.
  pose proof (searchBase_perm req) as Hperm. split; [exact Hperm|]. split.
  - rewrite Hperm. intros Hin.
    apply list_elem_of_fmap in Hin as (c & Hc & _). unfold slash_to_comma in Hc.
    destruct (N.eqb_spec c slash) as [_|Hne]; [discriminate Hc|by symmetry in Hc].
  - by rewrite Hperm, length_fmap, length_drop.
Qed.

(** X2: A filter parameter whose conversion to a string succeeds and gives
    a string without ["%"] (for an absent parameter, ["undefined"]) is
    decoded to that string. *)
Theorem plain_filter_unchanged (req : Request) (s : jsstring) (w : World) :
  ToString_undef (query req !! str "filter") = Some s ->
  percent ∉ s ->
  filter req w = (Ret s, w).
Proof.
  intros Hs Hplain. rewrite filter_eq, Hs. unfold decodeURI.
  by rewrite (Decode_plain _ Hplain).
Qed.

Lemma plain_filter_unchanged_witness :
  ToString_undef (query request_people !! str "filter") =
    Some (str "(objectClass=person)") /\
  (percent ∉ str "(objectClass=person)") /\
  filter request_people new_World = (Ret (str "(objectClass=person)"), new_World).
Proof.
  assert (H : percent ∉ str "(objectClass=person)").
  { apply (bool_decide_unpack _). vm_compute. exact I. }
  split; [reflexivity|]. split; [exact H|].
  exact (plain_filter_unchanged request_people (str "(objectClass=person)")
           new_World eq_refl H).
Defined.

(** X3: A filter parameter in which some ["%"] is not followed by two
    hexadecimal digits makes the handler throw [URIError] before it calls
    [client.search]: the state is left as it was. *)
Theorem bad_escape_throws
    (req : Request) (r : Ldap.reply) (w : World) (pre post : jsstring) :
  ToString_undef (query req !! str "filter") = Some (pre ++ percent :: post) ->
  (forall h l post', post = h :: l :: post' -> ParseHexOctet h l = None) ->
  serve req r w = (Throw URIError, w).
Proof.
  intros Hsplit Hbad.
  destruct (decodeURI (pre ++ percent :: post)) as [t|] eqn:Hdec.
  - apply Decode_escaped in Hdec.
    destruct (Hdec pre post eq_refl) as (h & l & post' & Hpost & [b Hb]).
    rewrite (Hbad h l post' Hpost) in Hb. discriminate Hb.
  - apply serve_throws. by apply (handler_URIError req _ Hsplit).
Qed.

Lemma bad_escape_throws_witness :
  ToString_undef (query request_percent !! str "filter") =
    Some (str "(description=100" ++ percent :: str ")") /\
  (forall h l post', str ")" = h :: l :: post' -> ParseHexOctet h l = None) /\
  serve request_percent (Ldap.ldapRes [Ldap.end_ 0]) new_World =
    (Throw URIError, new_World).
Proof.
  assert (H : forall h l post', str ")" = h :: l :: post' -> ParseHexOctet h l = None).
  { intros h l post' Heq. discriminate Heq. }
  split; [reflexivity|]. split; [exact H|].
  exact (bad_escape_throws request_percent (Ldap.ldapRes [Ldap.end_ 0]) new_World
           (str "(description=100") (str ")") eq_refl H).
Defined.

Lemma join_comma (l : list jsstring) :
  (2 <= length l)%nat -> 44 ∈ join (str ",") l.
Proof.
  destruct l as [|x [|y l]]; cbn [length]; try lia. intros _.
  rewrite (join_cons _ x (y :: l)) by done.
  apply elem_of_app. right. apply elem_of_app. left. by apply list_elem_of_singleton.
Qed.

(** X4: A [scope] parameter given as an array of two or more values (the
    parameter repeated) gives ["base"] whenever the comparison does not
    throw, that is whenever the array converts to a string; an object gives
    ["base"] unless it has an own property [toString], and then the
    comparison throws [TypeError]. *)
Theorem scope_repeated_is_base
    (p : jsstring) (q : gmap jsstring qval) (items : list qval)
    (s : jsstring) (w : World) :
  (2 <= length items)%nat ->
  ToString (QArr items) = Some s ->
  scope {| path := p; query := <[str "scope" := QArr items]> q |} w =
    (Ret (str "base"), w) /\
  (forall props,
     scope {| path := p; query := <[str "scope" := QObj props]> q |} w =
       (if bool_decide (str "toString" ∈ props.*1) then Throw TypeError
        else Ret (str "base"), w)).
Proof.
  intros Hlen Hs. split.
  - rewrite (scope_converted _ (QArr items) s); [|by apply lookup_insert_eq|done].
    assert (Hcomma : 44 ∈ s).
    { cbn [ToString] in Hs. destruct (mapM ToString items) as [l|] eqn:Hl; [|done].
      injection Hs as <-. apply join_comma.
      by rewrite <- (length_mapM _ _ _ Hl). }
    rewrite !bool_decide_eq_false_2; [done| |]; intros ->; revert Hcomma;
      apply (bool_decide_unpack _); vm_compute; exact I.
  - intros props. rewrite scope_eq. cbn [query]. rewrite lookup_insert_eq.
    cbn [loose_eq ToString]. by destruct (bool_decide _).
Qed.

Lemma scope_repeated_is_base_witness :
  (2 <= length [QStr (str "1"); QStr (str "1")])%nat /\
  ToString (QArr [QStr (str "1"); QStr (str "1")]) = Some (str "1,1") /\
  scope {| path := str "/dc=com";
           query := <[str "scope" := QArr [QStr (str "1"); QStr (str "1")]]> ∅ |}
        new_World = (Ret (str "base"), new_World) /\
  (forall props,
     scope {| path := str "/dc=com"; query := <[str "scope" := QObj props]> ∅ |}
           new_World =
       (if bool_decide (str "toString" ∈ props.*1) then Throw TypeError
        else Ret (str "base"), new_World)).
Proof.
  split; [cbn; lia|]. split; [reflexivity|].
  apply (scope_repeated_is_base (str "/dc=com") ∅ [QStr (str "1"); QStr (str "1")]
           (str "1,1") new_World); [cbn; lia|reflexivity].
Defined.

(** X5: The query parameters have no effect on the search nor on the
    response: two requests for the same path on which the handler does not
    throw make the same search call and, on the same reply of the
    directory, end in the same state. *)
Theorem query_has_no_effect
    (req req' : Request) (r : Ldap.reply) :
  path req = path req' ->
  fst (handler req new_World) = Ret tt ->
  fst (handler req' new_World) = Ret tt ->
  serve req r new_World = serve req' r new_World.
Proof.
  intros Hpath Hh Hh'.
  rewrite (serve_issued req r _ Hh), (serve_issued req' r _ Hh').
  unfold searchBase. by rewrite Hpath.
Qed.

Lemma query_has_no_effect_witness :
  path request_people = path request_people_all /\
  fst (handler request_people new_World) = Ret tt /\
  fst (handler request_people_all new_World) = Ret tt /\
  serve request_people (Ldap.ldapRes [Ldap.searchEntry entry_mail; Ldap.end_ 0]) new_World =
    serve request_people_all (Ldap.ldapRes [Ldap.searchEntry entry_mail; Ldap.end_ 0])
      new_World.
Proof.
  split; [reflexivity|]. split; [reflexivity|]. split; [reflexivity|].
  apply (query_has_no_effect request_people request_people_all); reflexivity.
Defined.

(** ** More on the result stream *)

(** X6: When the client reports that the search could not be issued, the
    response is 500 with an empty body; [next] is not called and no entry is
    collected. *)
Theorem search_failure_response (req : Request) :
  fst (handler req new_World) = Ret tt ->
  serve req Ldap.ldapErr new_World =
    (Ret tt,
     {| searches :=
          [{| Ldap.base := searchBase req; Ldap.options_of := Ldap.no_options |}];
        res := {| statusCode := 500;
                  written := [{| code := 500; body_of := NoBody |}] |};
        next_calls := 0; entries := [] |}).
Proof. intros Hf. by rewrite (serve_issued req _ _ Hf). Qed.

Lemma search_failure_response_witness :
  fst (handler request_people new_World) = Ret tt /\
  serve request_people Ldap.ldapErr new_World =
    (Ret tt,
     {| searches :=
          [{| Ldap.base := searchBase request_people;
              Ldap.options_of := Ldap.no_options |}];
        res := {| statusCode := 500;
                  written := [{| code := 500; body_of := NoBody |}] |};
        next_calls := 0; entries := [] |}).
Proof.
  split; [reflexivity|].
  apply (search_failure_response request_people).
  reflexivity.
Defined.

(** X7: As long as the stream has delivered entries only, nothing is written
    to the response and [next] is not called: the entries wait, flattened
    and in order, for a terminal event. *)
Theorem no_response_before_terminal_event
    (req : Request) (raw : list SearchEntry.pojo) :
  fst (handler req new_World) = Ret tt ->
  let '(result, w) := serve req (Ldap.ldapRes (Ldap.searchEntry <$> raw)) new_World in
  result = Ret tt /\
  res w = new_Res /\
  next_calls w = 0%nat /\
  entries w = flatten <$> raw.
Proof.
  intros Hf. rewrite <- (app_nil_r (Ldap.searchEntry <$> raw)).
  by rewrite (serve_stream req raw [] Hf).
Qed.

Lemma no_response_before_terminal_event_witness :
  fst (handler request_people new_World) = Ret tt /\
  let '(result, w) :=
    serve request_people
      (Ldap.ldapRes (Ldap.searchEntry <$> [entry_mail; entry_mail])) new_World in
  result = Ret tt /\
  res w = new_Res /\
  next_calls w = 0%nat /\
  entries w = flatten <$> [entry_mail; entry_mail].
Proof.
  split; [reflexivity|].
  apply (no_response_before_terminal_event request_people [entry_mail; entry_mail]).
  reflexivity.
Defined.

(** Once a response was written, no handler reaches its call of [next]. *)
Lemma on_sent_next (sb : jsstring) (ev : Ldap.event) (w : World) :
  written (res w) <> [] ->
  next_calls (snd (on sb ev w)) = next_calls w.
Proof.
  destruct w as [ss [sc [|r wr]] n es]; [done|]. intros _.
  case_event ev; reflexivity.
Qed.

Lemma emit_events_sent_next (sb : jsstring) (evs : list Ldap.event) (w : World) :
  written (res w) <> [] ->
  next_calls (snd (emit_events sb evs w)) = next_calls w.
Proof.
  revert w. induction evs as [|ev evs IH]; intros w Hw; [done|].
  cbn [emit_events]. unfold bind.
  pose proof (on_sent sb ev w Hw) as Hon.
  pose proof (on_sent_next sb ev w Hw) as Hnext.
  destruct (on sb ev w) as [[[]|e] w']; cbn [snd] in *; [|done].
  rewrite IH; [done|]. by rewrite Hon.
Qed.

(** X8: [next] is called once when the first terminal event is an end event
    of status 0, and never otherwise, whatever events follow. *)
Theorem next_only_after_success
    (req : Request) (raw : list SearchEntry.pojo)
    (t : Ldap.event) (post : list Ldap.event) :
  fst (handler req new_World) = Ret tt ->
  is_terminal t = true ->
  next_calls (snd (serve req
    (Ldap.ldapRes ((Ldap.searchEntry <$> raw) ++ t :: post)) new_World)) =
  match t with
  | Ldap.end_ 0 => 1%nat
  | _ => 0%nat
  end.
Proof.
  intros Hf Ht. rewrite (serve_stream req raw _ Hf). cbn [emit_events]. unfold bind.
  destruct (on_terminal_collecting req (flatten <$> raw) t Ht) as [Hret Hw].
  assert (Hn : next_calls (snd (on (searchBase req) t (collecting req (flatten <$> raw)))) =
               match t with Ldap.end_ 0 => 1%nat | _ => 0%nat end).
  { destruct t as [e|status|err|uris]; [discriminate Ht| | |].
    - unfold on, on_end. destruct status; reflexivity.
    - by destruct err.
    - reflexivity. }
  destruct (on (searchBase req) t (collecting req (flatten <$> raw)))
    as [[[]|e] w']; cbn [fst snd] in *; [|discriminate Hret].
  rewrite emit_events_sent_next; [done|]. by rewrite Hw.
Qed.

Lemma next_only_after_success_witness :
  fst (handler request_people new_World) = Ret tt /\
  is_terminal (Ldap.end_ 0) = true /\
  next_calls (snd (serve request_people
    (Ldap.ldapRes ((Ldap.searchEntry <$> [entry_mail]) ++
                   Ldap.end_ 0 :: [Ldap.searchEntry entry_mail]))
    new_World)) = 1%nat.
Proof.
  split; [reflexivity|]. split; [reflexivity|].
  apply (next_only_after_success request_people
           [entry_mail] (Ldap.end_ 0)); reflexivity.
Defined.

(** X9: A second terminal event always throws: its handler calls [res.json]
    on the response that the first one has sent. *)
Theorem second_terminal_event_throws
    (req : Request) (raw raw' : list SearchEntry.pojo)
    (t t' : Ldap.event) (post : list Ldap.event) :
  fst (handler req new_World) = Ret tt ->
  is_terminal t = true ->
  is_terminal t' = true ->
  fst (serve req
    (Ldap.ldapRes ((Ldap.searchEntry <$> raw) ++
                   t :: (Ldap.searchEntry <$> raw') ++ t' :: post)) new_World) =
    Throw ERR_HTTP_HEADERS_SENT.
Proof.
  intros Hf Ht Ht'. rewrite (serve_stream req raw _ Hf). cbn [emit_events].
  unfold bind.
  destruct (on_terminal_collecting req (flatten <$> raw) t Ht) as [Hret Hw].
  destruct (on (searchBase req) t (collecting req (flatten <$> raw)))
    as [[[]|e] w']; cbn [fst snd] in *; [|discriminate Hret].
  rewrite emit_events_app. unfold bind. rewrite emit_entries.
  cbn [emit_events]. unfold bind.
  set (w2 := {| searches := searches w'; res := res w'; next_calls := next_calls w';
                entries := entries w' ++ (flatten <$> raw') |}).
  assert (Hw2 : written (res w2) <> []) by (cbn; by rewrite Hw).
  pose proof (on_terminal_sent (searchBase req) t' w2 Hw2 Ht') as Hthrow.
  destruct (on (searchBase req) t' w2) as [[[]|e] w3]; cbn [fst] in *;
    [discriminate Hthrow|done].
Qed.

Lemma second_terminal_event_throws_witness :
  fst (handler request_people new_World) = Ret tt /\
  is_terminal (Ldap.searchReference []) = true /\
  is_terminal (Ldap.end_ 0) = true /\
  fst (serve request_people
    (Ldap.ldapRes ((Ldap.searchEntry <$> [entry_mail]) ++
                   Ldap.searchReference [] :: (Ldap.searchEntry <$> []) ++
                   Ldap.end_ 0 :: [])) new_World) =
    Throw ERR_HTTP_HEADERS_SENT.
Proof.
  split; [reflexivity|]. split; [reflexivity|]. split; [reflexivity|].
  apply (second_terminal_event_throws request_people
           [entry_mail] [] (Ldap.searchReference []) (Ldap.end_ 0) []);
    reflexivity.
Defined.

Lemma on_shape (sb : jsstring) (ev : Ldap.event) (w : World) :
  shape_invariant w -> shape_invariant (snd (on sb ev w)).
Proof.
  destruct w as [ss [sc [|x [|y wr]]] n es]; unfold shape_invariant at 1;
    cbn [res written statusCode]; intros Hinv; [subst sc| |done].
  - case_event ev; reflexivity.
  - unfold shape_invariant. by rewrite on_sent.
Qed.

Lemma emit_events_shape (sb : jsstring) (evs : list Ldap.event) (w : World) :
  shape_invariant w -> shape_invariant (snd (emit_events sb evs w)).
Proof.
  revert w. induction evs as [|ev evs IH]; intros w Hw; [done|].
  cbn [emit_events]. unfold bind. pose proof (on_shape sb ev w Hw) as Hon.
  destruct (on sb ev w) as [[[]|e] w']; cbn [snd] in *; [|done]. by apply IH.
Qed.

(** X10: Whatever the request and whatever the directory client delivers, at
    most one response is written, and it is 200 with an array of entries,
    400 with a message, 500 with a message, or 500 with an empty body. *)
Theorem responses_have_expected_shape (req : Request) (r : Ldap.reply) :
  let ws := written (res (snd (serve req r new_World))) in
  (length ws <= 1)%nat /\ Forall (fun x => expected_shape x = true) ws.
Proof.
  assert (Hinv : shape_invariant (snd (serve req r new_World))).
  { destruct (fst (handler req new_World)) as [[]|e] eqn:Hh.
    - rewrite (serve_issued req r _ Hh). destruct r as [|evs]; [reflexivity|].
      by apply emit_events_shape.
    - by rewrite (serve_throws req e r _ Hh). }
  unfold shape_invariant in Hinv. cbn zeta.
  destruct (written (res (snd (serve req r new_World)))) as [|x [|y ws]]; [| |done].
  - split; [cbn; lia|constructor].
  - split; [cbn; lia|by repeat constructor].
Qed.

(** ** More on flattening *)

Lemma forEach_snoc (raw : list SearchEntry.attribute) (a : SearchEntry.attribute)
    (acc : attribute_map) :
  fold_left set_attribute (raw ++ [a]) acc =
    set_property (fold_left set_attribute raw acc)
      (SearchEntry.type a) (SearchEntry.values a).
Proof. by rewrite fold_left_app. Qed.

Lemma forEach_fresh (raw : list SearchEntry.attribute) (name : jsstring) :
  name <> str "__proto__" ->
  name ∉ SearchEntry.type <$> raw ->
  own (fold_left set_attribute raw empty_object) !! name = None.
Proof.
  intros Hproto Hname. rewrite forEach_lookup by done.
  destruct (last _) as [a|] eqn:Hlast; [|done].
  apply last_Some in Hlast as [l' Hl'].
  assert (Ha : a ∈ base.filter (fun b => SearchEntry.type b = name) raw).
  { rewrite Hl'. set_solver. }
  apply list_elem_of_filter in Ha as [Hty Hin]. subst name.
  destruct Hname. by apply list_elem_of_fmap_2.
Qed.

(** X11: When the attribute names of the raw entry are distinct, flattening
    loses nothing but an attribute named ["__proto__"]: the map holds
    exactly the pairs of name and values of the other attributes, as many
    as there are. *)
Theorem flatten_distinct_names (entry : SearchEntry.pojo) :
  NoDup (SearchEntry.type <$> SearchEntry.attributes entry) ->
  let kept :=
    base.filter (fun a => SearchEntry.type a <> str "__proto__")
                (SearchEntry.attributes entry) in
  map_to_list (own (attributes (flatten entry))) ≡ₚ
    ((fun a => (SearchEntry.type a, SearchEntry.values a)) <$> kept) /\
  size (own (attributes (flatten entry))) = length kept.
Proof.
  intros Hnodup kept.
  assert (Hperm : map_to_list (own (attributes (flatten entry))) ≡ₚ
    ((fun a => (SearchEntry.type a, SearchEntry.values a)) <$> kept)).
  { unfold kept, flatten. cbn [attributes].
    induction (SearchEntry.attributes entry) as [|a raw IH] using rev_ind.
    - cbn. by rewrite map_to_list_empty.
    - rewrite fmap_app in Hnodup. apply NoDup_app in Hnodup as (Hraw & Hfresh & _).
      rewrite forEach_snoc, filter_app, fmap_app. unfold set_property.
      rewrite filter_cons, filter_nil.
      destruct (decide (SearchEntry.type a = str "__proto__")) as [Ha|Ha].
      + rewrite (bool_decide_eq_true_2 _ Ha), decide_False by tauto.
        cbn [own]. rewrite (IH Hraw). cbn. by rewrite app_nil_r.
      + rewrite (bool_decide_eq_false_2 _ Ha), decide_True by done.
        cbn [own]. rewrite map_to_list_insert.
        * rewrite (IH Hraw). cbn. apply Permutation_cons_append.
        * apply forEach_fresh; [done|]. intros Hin. apply (Hfresh _ Hin).
          apply list_elem_of_fmap_2. by apply list_elem_of_singleton. }
  split; [exact Hperm|].
  by rewrite <- length_map_to_list, Hperm, length_fmap.
Qed.

Lemma flatten_distinct_names_witness :
  NoDup (SearchEntry.type <$> SearchEntry.attributes entry_proto) /\
  let kept :=
    base.filter (fun a => SearchEntry.type a <> str "__proto__")
                (SearchEntry.attributes entry_proto) in
  map_to_list (own (attributes (flatten entry_proto))) ≡ₚ
    ((fun a => (SearchEntry.type a, SearchEntry.values a)) <$> kept) /\
  size (own (attributes (flatten entry_proto))) = length kept.
Proof.
  assert (H : NoDup (SearchEntry.type <$> SearchEntry.attributes entry_proto)).
  { apply (bool_decide_unpack _). vm_compute. exact I. }
  split; [exact H|]. exact (flatten_distinct_names entry_proto H).
Defined.

(** ** The message of a directory error status *)

Lemma str_inj (a b : string) : str a = str b -> a = b.
Proof.
  revert b. induction a as [|c a IH]; intros [|d b]; try done.
  unfold str. cbn [list_ascii_of_string List.map]. intros Heq.
  injection Heq as Hc Hrest. f_equal.
  - by rewrite <- (ascii_N_embedding c), <- (ascii_N_embedding d), Hc.
  - by apply IH.
Qed.

Lemma number_toString_inj (a b : Z) : number_toString a = number_toString b -> a = b.
Proof.
  unfold number_toString. intros Heq%str_inj.
  apply DecimalZ.to_int_inj.
  assert (Hnil : forall z, Z.to_int z <> Decimal.Pos Decimal.Nil /\
                           Z.to_int z <> Decimal.Neg Decimal.Nil).
  { intros [|p|p]; cbn; split; try done;
      intros [= Hp]; by apply (DecimalPos.Unsigned.to_uint_nonnil p). }
  assert (Hparse : forall z,
    NilZero.int_of_string (NilZero.string_of_int (Z.to_int z)) = Some (Z.to_int z)).
  { intros z. destruct (Hnil z). by apply NilZero.isi. }
  pose proof (Hparse a) as Ha. rewrite Heq, Hparse in Ha. by injection Ha.
Qed.

(** X12: The message of the 400 response to a non-zero end status names the
    status: different statuses give different messages. *)
Theorem status_message_injective (status status' : Z) :
  str "ldap status result was: " ++ number_toString status =
    str "ldap status result was: " ++ number_toString status' ->
  status = status'.
Proof. intros Heq%app_inv_head. by apply number_toString_inj. Qed.

Lemma status_message_injective_witness :
  str "ldap status result was: " ++ number_toString 53 =
    str "ldap status result was: " ++ number_toString 53 /\
  53%Z = 53%Z.
Proof.
  split; [reflexivity|]. apply (status_message_injective 53 53). reflexivity.
Defined.
